(** * SDISC: a cycle-counted 16-bit instruction-set simulator

    A shallow embedding of [SDISC.hpp] (namespace [SDISC]: the opcode
    table, the [Instruction] word, the [CPU] class with [reset], [start],
    [loadProgram], [RUN] and the sixteen instruction handlers) and of the
    shift/mask variant of [Instruction] that the repository also carries,
    followed by the properties of the engine.

    Conventions of the embedding.
    - [BYTE], [WORD] and [COUNT] values are integers of [Z]; every store to
      one of them is wrapped explicitly ([to_BYTE], [to_WORD], [to_COUNT]).
    - Operands of type [WORD] are promoted to [int] before arithmetic, as
      C++ does; [to_int] is the 32-bit two's complement wrap of a result.
    - [std::array] members are lists indexed by position.
    - A computation returns [option]: [None] stands for an execution on
      which the C++ program has no defined result (an index outside an
      array, an integer division by zero). *)

From Stdlib Require Import ZArith Lia.
From stdpp Require Import base decidable option list numbers.

Local Open Scope Z_scope.

(** ** Types *)

Definition to_BYTE (x : Z) : Z := x mod 2 ^ 8.
Definition to_WORD (x : Z) : Z := x mod 2 ^ 16.
Definition to_COUNT (x : Z) : Z := x mod 2 ^ 64.

(** The value of an [int] expression whose mathematical result is [x]: the
    32-bit two's complement wrap.  Of the expressions below only the
    product of two [WORD]s can leave the range of [int]; C++ does not say
    what the product is then, the compiled multiplication wraps, and the
    16 bits that are stored are those of the mathematical product either
    way ([to_WORD_to_int]). *)
Definition to_int (x : Z) : Z := (x + 2 ^ 31) mod 2 ^ 32 - 2 ^ 31.

Definition is_BYTE (x : Z) : Prop := 0 ≤ x < 2 ^ 8.
Definition is_WORD (x : Z) : Prop := 0 ≤ x < 2 ^ 16.
Definition is_COUNT (x : Z) : Prop := 0 ≤ x < 2 ^ 64.

(** ** Arrays *)

(** [a[i]] read and written; an index outside the array has no result. *)
Definition array_get {A} (a : list A) (i : Z) : option A :=
  if decide (0 ≤ i) then a !! Z.to_nat i else None.

Definition array_set {A} (a : list A) (i : Z) (v : A) : option (list A) :=
  if decide (0 ≤ i < Z.of_nat (length a))
  then Some (<[Z.to_nat i := v]> a) else None.

(** ** OP-Codes *)

Module OP.
(* Program Control *)
Definition STP : Z := 0x0.
(* Jumps and Conditions *)
Definition JAL : Z := 0x1.
Definition JIE : Z := 0x2.
Definition JIL : Z := 0x3.
(* Load Store Set *)
Definition STR : Z := 0x4.
Definition LOD : Z := 0x5.
Definition SHB : Z := 0x6.
Definition SLB : Z := 0x7.
(* Bitwise Operators *)
Definition AND : Z := 0x8.
Definition NND : Z := 0x9.
Definition IOR : Z := 0xA.
Definition XOR : Z := 0xB.
(* Math Operators *)
Definition ADD : Z := 0xC.
Definition SUB : Z := 0xD.
Definition DIV : Z := 0xE. (* commented "Multiply" in the source *)
Definition MUL : Z := 0xF. (* commented "Divide" in the source *)

(* Ticks *)
Definition tick_count : list Z :=
  [ (* Program Control *) 2;
    (* Jumps and Conditions *) 4; 6; 6;
    (* Load Store Set *) 12; 8; 4; 4;
    (* Bitwise Operators *) 4; 4; 4; 4;
    (* Math Operators *) 8; 8; 16; 32 ].
End OP.

(** ** Instructions *)

(** [struct Instruction]: two 4-bit fields [code] and [rega], then a byte
    that is read either as the 8-bit field [byte] or as the two 4-bit
    fields [regb], [regc].  C++ leaves the place of a bit-field in its byte
    to the implementation; g++ and clang fill a byte from its least
    significant bit, so that [regb], declared first, is the low nibble of
    the byte and [regc] the high nibble.  The views below are those.  No
    property of the CPU depends on the order: a handler reads the fields
    an instruction was built with. *)
Record Instruction : Type := mkInstruction {
  code : Z;
  rega : Z;
  byte : Z
}.

Definition regb (data : Instruction) : Z := Z.land (byte data) 0xf.
Definition regc (data : Instruction) : Z := Z.land (Z.shiftr (byte data) 4) 0xf.

(** The constructors; a bit-field keeps the low bits of its initialiser. *)
Definition Instruction_default : Instruction :=
  {| code := OP.STP; rega := 0; byte := 0 |}.

Definition Instruction_op (op : Z) : Instruction :=
  {| code := op mod 2 ^ 4; rega := 0; byte := 0 |}.

Definition Instruction_regs (op ra rb rc : Z) : Instruction :=
  {| code := op mod 2 ^ 4; rega := ra mod 2 ^ 4;
     byte := Z.lor (rb mod 2 ^ 4) (Z.shiftl (rc mod 2 ^ 4) 4) |}.

Definition Instruction_byte (op ra b : Z) : Instruction :=
  {| code := op mod 2 ^ 4; rega := ra mod 2 ^ 4; byte := to_BYTE b |}.

Definition wf_Instruction (data : Instruction) : Prop :=
  0 ≤ code data < 2 ^ 4 ∧ 0 ≤ rega data < 2 ^ 4 ∧ is_BYTE (byte data).

(** ** Constants *)

Definition mem_size : Z := 0x10000.
Definition pro_size : Z := 0x10000.
Definition reg_size : Z := 0x10.

Definition init_mem : Z := 0xffff.
Definition init_reg : Z := 0x0000.
Definition init_pro : Instruction := Instruction_default.

(** ** The CPU *)

Inductive STATE : Type := running | stopped.

Record CPU : Type := mkCPU {
  tick : Z;
  status : STATE;
  PC : Z;
  program : list Instruction;
  reg : list Z;
  mem : list Z
}.

Definition set_tick (c : CPU) (t : Z) : CPU :=
  mkCPU t (status c) (PC c) (program c) (reg c) (mem c).
Definition set_status (c : CPU) (s : STATE) : CPU :=
  mkCPU (tick c) s (PC c) (program c) (reg c) (mem c).
Definition set_PC (c : CPU) (pc : Z) : CPU :=
  mkCPU (tick c) (status c) pc (program c) (reg c) (mem c).
Definition set_program (c : CPU) (p : list Instruction) : CPU :=
  mkCPU (tick c) (status c) (PC c) p (reg c) (mem c).
Definition set_reg (c : CPU) (r : list Z) : CPU :=
  mkCPU (tick c) (status c) (PC c) (program c) r (mem c).
Definition set_mem (c : CPU) (m : list Z) : CPU :=
  mkCPU (tick c) (status c) (PC c) (program c) (reg c) m.

(** [reg[r]] as an rvalue, and the assignment [reg[r] = v] to a [WORD]. *)
Definition get_reg (c : CPU) (r : Z) : option Z := array_get (reg c) r.
Definition put_reg (c : CPU) (r : Z) (v : Z) : option CPU :=
  set_reg c <$> array_set (reg c) r (to_WORD v).

Definition get_mem (c : CPU) (a : Z) : option Z := array_get (mem c) a.
Definition put_mem (c : CPU) (a : Z) (v : Z) : option CPU :=
  set_mem c <$> array_set (mem c) a (to_WORD v).

(** The state a [CPU] object is in: arrays of their declared sizes holding
    values of their declared types. *)
Record wf_CPU (c : CPU) : Prop := mk_wf_CPU {
  wf_tick : is_COUNT (tick c);
  wf_PC : is_WORD (PC c);
  wf_program_size : Z.of_nat (length (program c)) = pro_size;
  wf_program : Forall wf_Instruction (program c);
  wf_reg_size : Z.of_nat (length (reg c)) = reg_size;
  wf_reg : Forall is_WORD (reg c);
  wf_mem_size : Z.of_nat (length (mem c)) = mem_size;
  wf_mem : Forall is_WORD (mem c)
}.

(** *** CPU control *)

Definition reset (c : CPU) : CPU :=
  {| tick := 0;
     status := stopped;
     PC := PC c;
     program := (λ _, init_pro) <$> program c;
     mem := (λ _, init_mem) <$> mem c;
     reg := (λ _, init_reg) <$> reg c |}.

(** The loop of [loadProgram]: [n] more iterations from index [i]. *)
Fixpoint loadProgram_loop (n : nat) (i : nat)
    (in_program : list Instruction) (prog : list Instruction)
    : list Instruction :=
  match n with
  | O => prog
  | S n' =>
      loadProgram_loop n' (S i) in_program
        (match in_program !! i with
         | Some x (* i < in_program.size() *) => <[i := x]> prog
         | None => <[i := init_pro]> prog
         end)
  end.

Definition loadProgram (c : CPU) (in_program : list Instruction) : CPU :=
  set_program c
    (loadProgram_loop (Z.to_nat pro_size) 0 in_program (program c)).

(** *** Clock function *)

Definition addTicks (c : CPU) (data : Instruction) : option (Z * CPU) :=
  t ← array_get OP.tick_count (code data);
  Some (t, set_tick c (to_COUNT (tick c + t))).

(** *** Program control *)

Definition STP (c : CPU) (data : Instruction) : option (Z * CPU) :=
  addTicks (set_status c stopped) data.

(** *** Jumps / conditions *)

Definition JAL (c : CPU) (data : Instruction) : option (Z * CPU) :=
  let c := set_PC c (to_WORD (PC c + 1)) in
  let old_PC := PC c in
  b ← get_reg c (regb data);
  let c := set_PC c b in
  c ← put_reg c (rega data) old_PC;
  addTicks c data.

Definition JIE (c : CPU) (data : Instruction) : option (Z * CPU) :=
  a ← get_reg c (rega data);
  b ← get_reg c (regb data);
  if decide (a = b)
  then t ← get_reg c (regc data); addTicks (set_PC c t) data
  else addTicks c data.

Definition JIL (c : CPU) (data : Instruction) : option (Z * CPU) :=
  a ← get_reg c (rega data);
  b ← get_reg c (regb data);
  if decide (a < b)
  then t ← get_reg c (regc data); addTicks (set_PC c t) data
  else addTicks c data.

(** *** Load / store / set *)

Definition STR (c : CPU) (data : Instruction) : option (Z * CPU) :=
  a ← get_reg c (rega data);
  b ← get_reg c (regb data);
  c ← put_mem c b a;
  addTicks c data.

Definition LOD (c : CPU) (data : Instruction) : option (Z * CPU) :=
  b ← get_reg c (regb data);
  v ← get_mem c b;
  c ← put_reg c (rega data) v;
  addTicks c data.

Definition SHB (c : CPU) (data : Instruction) : option (Z * CPU) :=
  a ← get_reg c (rega data);
  c ← put_reg c (rega data) (Z.land a 0x00ff);
  a ← get_reg c (rega data);
  c ← put_reg c (rega data) (Z.lor a (to_int (Z.shiftl (byte data) 8)));
  addTicks c data.

Definition SLB (c : CPU) (data : Instruction) : option (Z * CPU) :=
  a ← get_reg c (rega data);
  c ← put_reg c (rega data) (Z.land a 0xff00);
  a ← get_reg c (rega data);
  c ← put_reg c (rega data) (Z.lor a (byte data));
  addTicks c data.

(** *** Bitwise operators *)

Definition AND (c : CPU) (data : Instruction) : option (Z * CPU) :=
  b ← get_reg c (regb data);
  c' ← get_reg c (regc data);
  c ← put_reg c (rega data) (Z.land b c');
  addTicks c data.

Definition NND (c : CPU) (data : Instruction) : option (Z * CPU) :=
  b ← get_reg c (regb data);
  c' ← get_reg c (regc data);
  c ← put_reg c (rega data) (Z.lnot (Z.land b c'));
  addTicks c data.

Definition IOR (c : CPU) (data : Instruction) : option (Z * CPU) :=
  b ← get_reg c (regb data);
  c' ← get_reg c (regc data);
  c ← put_reg c (rega data) (Z.lor b c');
  addTicks c data.

Definition XOR (c : CPU) (data : Instruction) : option (Z * CPU) :=
  b ← get_reg c (regb data);
  c' ← get_reg c (regc data);
  c ← put_reg c (rega data) (Z.lxor b c');
  addTicks c data.

(** *** Mathematical operators *)

Definition ADD (c : CPU) (data : Instruction) : option (Z * CPU) :=
  b ← get_reg c (regb data);
  c' ← get_reg c (regc data);
  c ← put_reg c (rega data) (to_int (b + c'));
  addTicks c data.

Definition SUB (c : CPU) (data : Instruction) : option (Z * CPU) :=
  b ← get_reg c (regb data);
  c' ← get_reg c (regc data);
  c ← put_reg c (rega data) (to_int (b - c'));
  addTicks c data.

Definition MUL (c : CPU) (data : Instruction) : option (Z * CPU) :=
  b ← get_reg c (regb data);
  c' ← get_reg c (regc data);
  c ← put_reg c (rega data) (to_int (b * c'));
  addTicks c data.

(** The quotient of two [int]s truncates toward zero; there is no
    quotient by zero. *)
Definition int_div (x y : Z) : option Z :=
  if decide (y = 0) then None else Some (to_int (Z.quot x y)).

Definition DIV (c : CPU) (data : Instruction) : option (Z * CPU) :=
  b ← get_reg c (regb data);
  c' ← get_reg c (regc data);
  q ← int_div b c';
  c ← put_reg c (rega data) q;
  addTicks c data.

(** *** Execute instruction *)

Definition RUN (c : CPU) (data : Instruction) : option (Z * CPU) :=
  (* Program Control *)
  if decide (code data = OP.STP) then STP c data
  (* Jump/Condition *)
  else if decide (code data = OP.JAL) then JAL c data
  else if decide (code data = OP.JIE) then JIE c data
  else if decide (code data = OP.JIL) then JIL c data
  (* Store/Load/Set *)
  else if decide (code data = OP.STR) then STR c data
  else if decide (code data = OP.LOD) then LOD c data
  else if decide (code data = OP.SHB) then SHB c data
  else if decide (code data = OP.SLB) then SLB c data
  (* Bitwise *)
  else if decide (code data = OP.AND) then AND c data
  else if decide (code data = OP.NND) then NND c data
  else if decide (code data = OP.IOR) then IOR c data
  else if decide (code data = OP.XOR) then XOR c data
  (* Math *)
  else if decide (code data = OP.ADD) then ADD c data
  else if decide (code data = OP.SUB) then SUB c data
  else if decide (code data = OP.MUL) then MUL c data
  else if decide (code data = OP.DIV) then DIV c data
  else Some (0, c).

(** *** The run loop *)

(** One turn of the loop of [start]: [RUN(program[PC++])]. *)
Definition step (c : CPU) : option (Z * CPU) :=
  data ← array_get (program c) (PC c);
  RUN (set_PC c (to_WORD (PC c + 1))) data.

(** What a call of [start] comes to within a number of turns of its loop. *)
Inductive outcome : Type :=
  | Returned (c : CPU)      (* the loop was left: [start] returns *)
  | Undefined               (* a turn of the loop has no defined result *)
  | StillRunning (c : CPU). (* the turns allowed were all taken *)

Fixpoint loop (fuel : nat) (c : CPU) : outcome :=
  match status c with
  | stopped => Returned c
  | running =>
      match fuel with
      | O => StillRunning c
      | S fuel' =>
          match step c with
          | None => Undefined
          | Some (_, c') => loop fuel' c'
          end
      end
  end.

Definition start (fuel : nat) (c : CPU) (start_pc : Z) : outcome :=
  loop fuel (set_status (set_PC c start_pc) running).

(** The instructions that [n] consecutive turns of the loop execute, in
    order, each with the ticks its [RUN] returned, and the state they lead
    to. *)
Fixpoint exec (n : nat) (c : CPU) : option (list (Instruction * Z) * CPU) :=
  match n with
  | O => Some ([], c)
  | S n' =>
      data ← array_get (program c) (PC c);
      '(t, c') ← step c;
      '(trace, c'') ← exec n' c';
      Some ((data, t) :: trace, c'')
  end.

(** ** The shift/mask [Instruction] *)

(** The variant of [struct Instruction] that keeps one [WORD data] and
    reads its fields with shifts and masks. *)
Module Packed.

Definition Instruction_default : Z := 0.

Definition Instruction_op (op : Z) : Z :=
  let data := 0x0000 in
  to_WORD (Z.lor data (to_int (Z.shiftl (Z.land op 0xf) 12))).

Definition Instruction_regs (op ra rb rc : Z) : Z :=
  let data := 0x0000 in
  let data := to_WORD (Z.lor data (to_int (Z.shiftl (Z.land op 0xf) 12))) in
  let data := to_WORD (Z.lor data (to_int (Z.shiftl (Z.land ra 0xf) 8))) in
  let data := to_WORD (Z.lor data (to_int (Z.shiftl (Z.land rb 0xf) 4))) in
  to_WORD (Z.lor data (to_int (Z.shiftl (Z.land rc 0xf) 0))).

Definition Instruction_byte (op ra b : Z) : Z :=
  let data := 0x0000 in
  let data := to_WORD (Z.lor data (to_int (Z.shiftl (Z.land op 0xf) 12))) in
  let data := to_WORD (Z.lor data (to_int (Z.shiftl (Z.land ra 0xf) 8))) in
  to_WORD (Z.lor data (to_int (Z.shiftl (Z.land b 0xff) 0))).

Definition code (data : Z) : Z := to_BYTE (Z.land (Z.shiftr data 12) 0xf).
Definition rega (data : Z) : Z := to_BYTE (Z.land (Z.shiftr data 8) 0xf).
Definition regb (data : Z) : Z := to_BYTE (Z.land (Z.shiftr data 4) 0xf).
Definition regc (data : Z) : Z := to_BYTE (Z.land (Z.shiftr data 0) 0xf).
Definition byte (data : Z) : Z := to_BYTE (Z.land (Z.shiftr data 0) 0xff).

End Packed.

(** ** Machines used as examples *)

(** A [CPU] as its constructor leaves it. *)
Definition CPU_new : CPU :=
  reset {| tick := 0; status := stopped; PC := 0;
           program := replicate (Z.to_nat pro_size) init_pro;
           reg := replicate (Z.to_nat reg_size) 0;
           mem := replicate (Z.to_nat mem_size) 0 |}.

(** [CPU_new] with register [r1] holding [v1] and [r2] holding [v2]. *)
Definition CPU_with_regs (r1 v1 r2 v2 : Z) : CPU :=
  set_reg CPU_new (<[Z.to_nat r2 := v2]> (<[Z.to_nat r1 := v1]> (reg CPU_new))).

(** What is looked at after one instruction: the ticks returned, the
    program counter and one register. *)
Definition observe (r : Z) (res : option (Z * CPU)) : option (Z * Z * option Z) :=
  '(t, c) ← res; Some (t, PC c, get_reg c r).

(** [CPU_new], running, about to fetch at address 0 a [DIV] of register 1
    (holding 7) by register 2 (holding 0) into register 0. *)
Definition DIV_by_zero_instruction : Instruction :=
  Instruction_regs OP.DIV 0 1 2.

Definition DIV_by_zero_machine : CPU :=
  set_status
    (set_program (CPU_with_regs 1 7 2 0)
       (<[0%nat := DIV_by_zero_instruction]> (program CPU_new)))
    running.

(** [CPU_new] with [JAL(A=1, B=2)] at address 10, register 2 holding 0x20
    and the program counter at 10. *)
Definition JAL_machine : CPU :=
  set_PC
    (set_program (CPU_with_regs 2 0x20 2 0x20)
       (<[10%nat := Instruction_regs OP.JAL 1 2 0]> (program CPU_new)))
    10.

(** A program one instruction longer than the program store: 65536 default
    instructions, then one [JAL]. *)
Definition long_program : list Instruction :=
  replicate (Z.to_nat pro_size) init_pro ++ [Instruction_regs OP.JAL 1 2 0].

(** ** The tick costs of the specification *)

(** The "Ticks" column of the opcode table of the specification, by the
    number of the opcode. *)
Definition spec_ticks (opcode : Z) : Z :=
  match opcode with
  | 0x0 => 2
  | 0x1 => 4
  | 0x2 => 6
  | 0x3 => 6
  | 0x4 => 12
  | 0x5 => 8
  | 0x6 => 4
  | 0x7 => 4
  | 0x8 => 4
  | 0x9 => 4
  | 0xA => 4
  | 0xB => 4
  | 0xC => 8
  | 0xD => 8
  | 0xE => 16
  | 0xF => 32
  | _ => 0
  end.

(** The sum of the costs of the opcodes of a sequence of instructions. *)
Definition total_ticks (trace : list (Instruction * Z)) : Z :=
  foldr (λ e acc, spec_ticks (code e.1) + acc) 0 trace.

(** * Properties *)

(** ** Integer conversions *)

Lemma to_WORD_is_WORD x : is_WORD (to_WORD x).
Proof. unfold is_WORD, to_WORD. apply Z.mod_pos_bound. lia. Qed.

Lemma to_COUNT_is_COUNT x : is_COUNT (to_COUNT x).
Proof. unfold is_COUNT, to_COUNT. apply Z.mod_pos_bound. lia. Qed.

Lemma to_WORD_id x : is_WORD x → to_WORD x = x.
Proof. unfold is_WORD, to_WORD. intros. by apply Z.mod_small. Qed.

Lemma to_COUNT_id x : is_COUNT x → to_COUNT x = x.
Proof. unfold is_COUNT, to_COUNT. intros. by apply Z.mod_small. Qed.

Lemma to_int_id x : - 2 ^ 31 ≤ x < 2 ^ 31 → to_int x = x.
Proof. unfold to_int. intros. rewrite Z.mod_small; lia. Qed.

(** Storing an [int] result into a [WORD] keeps the low 16 bits of the
    mathematical result, whether or not the [int] wrapped. *)
Lemma to_WORD_to_int x : to_WORD (to_int x) = x mod 2 ^ 16.
Proof.
  unfold to_WORD, to_int.
  rewrite (Z.mod_eq (x + 2 ^ 31) (2 ^ 32)) by lia.
  replace (x + 2 ^ 31 - 2 ^ 32 * ((x + 2 ^ 31) `div` 2 ^ 32) - 2 ^ 31)
    with (x + (- 2 ^ 16 * ((x + 2 ^ 31) `div` 2 ^ 32)) * 2 ^ 16) by lia.
  apply Z.mod_add. lia.
Qed.

Lemma to_COUNT_add_l x y : to_COUNT (to_COUNT x + y) = to_COUNT (x + y).
Proof. unfold to_COUNT. apply Zplus_mod_idemp_l. Qed.

Lemma nibble_range x : 0 ≤ Z.land x 0xf < 2 ^ 4.
Proof.
  change 0xf with (Z.ones 4). rewrite Z.land_ones by lia.
  apply Z.mod_pos_bound. lia.
Qed.

Lemma regb_range data : 0 ≤ regb data < 2 ^ 4.
Proof. apply nibble_range. Qed.

Lemma regc_range data : 0 ≤ regc data < 2 ^ 4.
Proof. apply nibble_range. Qed.

(** ** Arrays *)

Lemma array_get_is_Some {A} (a : list A) i :
  0 ≤ i < Z.of_nat (length a) → is_Some (array_get a i).
Proof.
  intros Hi. unfold array_get. rewrite decide_True by lia.
  apply lookup_lt_is_Some. lia.
Qed.

Lemma array_get_Some_range {A} (a : list A) i x :
  array_get a i = Some x → 0 ≤ i < Z.of_nat (length a).
Proof.
  unfold array_get. case_decide; [|done].
  intros Hx%lookup_lt_Some. lia.
Qed.

Lemma array_get_Forall {A} (P : A → Prop) (a : list A) i x :
  Forall P a → array_get a i = Some x → P x.
Proof.
  unfold array_get. case_decide; [|done].
  intros Ha Hx. by eapply Forall_lookup_1.
Qed.

Lemma array_set_is_Some {A} (a : list A) i v :
  0 ≤ i < Z.of_nat (length a) → array_set a i v = Some (<[Z.to_nat i := v]> a).
Proof. intros. unfold array_set. by rewrite decide_True. Qed.

Lemma array_get_insert {A} (a : list A) i v :
  0 ≤ i < Z.of_nat (length a) → array_get (<[Z.to_nat i := v]> a) i = Some v.
Proof.
  intros. unfold array_get. rewrite decide_True by lia.
  apply list_lookup_insert_eq. lia.
Qed.

(** ** The primitives of the handlers *)

Lemma addTicks_inv c data t c' :
  addTicks c data = Some (t, c') →
  array_get OP.tick_count (code data) = Some t
  ∧ c' = set_tick c (to_COUNT (tick c + t)).
Proof. unfold addTicks. intros; simplify_option_eq. done. Qed.

Lemma put_reg_inv c r v c' :
  put_reg c r v = Some c' →
  0 ≤ r < Z.of_nat (length (reg c))
  ∧ c' = set_reg c (<[Z.to_nat r := to_WORD v]> (reg c)).
Proof. unfold put_reg, array_set. intros; simplify_option_eq. done. Qed.

Lemma put_mem_inv c a v c' :
  put_mem c a v = Some c' →
  0 ≤ a < Z.of_nat (length (mem c))
  ∧ c' = set_mem c (<[Z.to_nat a := to_WORD v]> (mem c)).
Proof. unfold put_mem, array_set. intros; simplify_option_eq. done. Qed.

Lemma put_reg_Some c r v :
  0 ≤ r < Z.of_nat (length (reg c)) →
  put_reg c r v = Some (set_reg c (<[Z.to_nat r := to_WORD v]> (reg c))).
Proof. intros. unfold put_reg. by rewrite array_set_is_Some. Qed.

Lemma put_mem_Some c a v :
  0 ≤ a < Z.of_nat (length (mem c)) →
  put_mem c a v = Some (set_mem c (<[Z.to_nat a := to_WORD v]> (mem c))).
Proof. intros. unfold put_mem. by rewrite array_set_is_Some. Qed.

Lemma addTicks_Some c data :
  0 ≤ code data < 2 ^ 4 → is_Some (addTicks c data).
Proof.
  intros Hc. unfold addTicks.
  destruct (array_get_is_Some OP.tick_count (code data)) as [t Ht].
  { simpl. lia. }
  rewrite Ht. by eexists.
Qed.

(** Turn the primitives that succeeded into the states they produced. *)
Ltac prim_inv :=
  repeat match goal with
  | H : addTicks _ _ = Some _ |- _ =>
      apply addTicks_inv in H; destruct H as [? ->]
  | H : put_reg _ _ _ = Some _ |- _ =>
      apply put_reg_inv in H; destruct H as [? ->]
  | H : put_mem _ _ _ = Some _ |- _ =>
      apply put_mem_inv in H; destruct H as [? ->]
  end.

(** Open a handler that returned, down to the reads and the writes. *)
Ltac handler_inv H :=
  unfold STP, JAL, JIE, JIL, STR, LOD, SHB, SLB,
         AND, NND, IOR, XOR, ADD, SUB, MUL, DIV, int_div in H;
  simplify_option_eq; prim_inv.

(** A property of every branch of the dispatch, each under the opcode that
    selects it, is a property of [RUN]. *)
Lemma RUN_cases (P : option (Z * CPU) → Prop) c data :
  (code data = OP.STP → P (STP c data)) →
  (code data = OP.JAL → P (JAL c data)) →
  (code data = OP.JIE → P (JIE c data)) →
  (code data = OP.JIL → P (JIL c data)) →
  (code data = OP.STR → P (STR c data)) →
  (code data = OP.LOD → P (LOD c data)) →
  (code data = OP.SHB → P (SHB c data)) →
  (code data = OP.SLB → P (SLB c data)) →
  (code data = OP.AND → P (AND c data)) →
  (code data = OP.NND → P (NND c data)) →
  (code data = OP.IOR → P (IOR c data)) →
  (code data = OP.XOR → P (XOR c data)) →
  (code data = OP.ADD → P (ADD c data)) →
  (code data = OP.SUB → P (SUB c data)) →
  (code data = OP.MUL → P (MUL c data)) →
  (code data = OP.DIV → P (DIV c data)) →
  (¬ 0 ≤ code data < 2 ^ 4 → P (Some (0, c))) →
  P (RUN c data).
Proof.
  unfold RUN. intros. repeat case_decide; auto.
  match goal with H : _ → P (Some (0, c)) |- _ => apply H end.
  unfold OP.STP, OP.JAL, OP.JIE, OP.JIL, OP.STR, OP.LOD, OP.SHB, OP.SLB,
    OP.AND, OP.NND, OP.IOR, OP.XOR, OP.ADD, OP.SUB, OP.MUL, OP.DIV in *.
  lia.
Qed.

Lemma RUN_opcode c data :
  (code data = OP.STP → RUN c data = STP c data)
  ∧ (code data = OP.ADD → RUN c data = ADD c data)
  ∧ (code data = OP.SUB → RUN c data = SUB c data)
  ∧ (code data = OP.MUL → RUN c data = MUL c data)
  ∧ (code data = OP.DIV → RUN c data = DIV c data)
  ∧ (code data = OP.JAL → RUN c data = JAL c data).
Proof.
  unfold RUN. repeat split; intros ->; reflexivity.
Qed.

(** ** The instruction word *)

Lemma to_BYTE_land_ones x n :
  0 ≤ n ≤ 8 → to_BYTE (Z.land x (Z.ones n)) = Z.land x (Z.ones n).
Proof.
  intros Hn. unfold to_BYTE. rewrite Z.land_ones by lia.
  apply Z.mod_small.
  pose proof (Z.mod_pos_bound x (2 ^ n) ltac:(lia)).
  pose proof (Z.pow_le_mono_r 2 n 8 ltac:(lia) ltac:(lia)). lia.
Qed.

Lemma testbit_low_nibble x i :
  0 ≤ i → Z.testbit (Z.land x 0xf) i = Z.testbit x i && bool_decide (i < 4).
Proof.
  intros Hi. change 0xf with (Z.ones 4).
  rewrite Z.land_spec, Z.testbit_ones_nonneg by lia.
  f_equal. case_bool_decide; lia.
Qed.

Lemma testbit_low_byte x i :
  0 ≤ i → Z.testbit (Z.land x 0xff) i = Z.testbit x i && bool_decide (i < 8).
Proof.
  intros Hi. change 0xff with (Z.ones 8).
  rewrite Z.land_spec, Z.testbit_ones_nonneg by lia.
  f_equal. case_bool_decide; lia.
Qed.

(** A byte is its high nibble shifted by four, or-ed with its low nibble. *)
Lemma low_byte_of_nibbles x :
  Z.land x 0xff = Z.lor (Z.shiftl (Z.land (Z.shiftr x 4) 0xf) 4) (Z.land x 0xf).
Proof.
  apply Z.bits_inj'. intros i Hi.
  rewrite Z.lor_spec, testbit_low_byte, testbit_low_nibble by lia.
  destruct (decide (i < 4)) as [Hlt|Hge].
  - rewrite Z.shiftl_spec_low by lia.
    rewrite !bool_decide_eq_true_2 by lia. simpl. reflexivity.
  - rewrite Z.shiftl_spec by lia.
    rewrite testbit_low_nibble, Z.shiftr_spec by lia.
    replace (i - 4 + 4) with i by lia.
    rewrite (bool_decide_eq_false_2 (i < 4)) by lia.
    rewrite andb_false_r, orb_false_r.
    f_equal. repeat case_bool_decide; lia.
Qed.

(** In the shift/mask [Instruction], [byte()] is the full low byte of the
    word, [regb()] its high nibble and [regc()] its low nibble. *)
Lemma Packed_nibbles word :
  Packed.regb word = (word `div` 2 ^ 4) `mod` 2 ^ 4
  ∧ Packed.regc word = word `mod` 2 ^ 4
  ∧ Packed.byte word = word `mod` 2 ^ 8
  ∧ Packed.byte word
    = Z.lor (Z.shiftl (Packed.regb word) 4) (Packed.regc word).
Proof.
  unfold Packed.byte, Packed.regb, Packed.regc.
  rewrite Z.shiftr_0_r.
  change 0xff with (Z.ones 8). change 0xf with (Z.ones 4).
  rewrite !to_BYTE_land_ones by lia.
  rewrite !Z.land_ones by lia. rewrite Z.shiftr_div_pow2 by lia.
  repeat split.
  rewrite <- !Z.land_ones by lia. rewrite <- Z.shiftr_div_pow2 by lia.
  apply low_byte_of_nibbles.
Qed.

(** The encoding at work: [ADD 1, 2, 3] is the word 0xC123, whose byte is
    0x23; [SHB 1, 0xAB] is the word 0x61AB. *)
Lemma Packed_encoding_examples :
  Packed.Instruction_regs OP.ADD 1 2 3 = 0xC123
  ∧ Packed.Instruction_byte OP.SHB 1 0xAB = 0x61AB
  ∧ Packed.code 0xC123 = OP.ADD
  ∧ Packed.rega 0xC123 = 1
  ∧ Packed.regb 0xC123 = 2
  ∧ Packed.regc 0xC123 = 3
  ∧ Packed.byte 0xC123 = 0x23
  ∧ Packed.byte 0x61AB = 0xAB.
Proof. repeat split; vm_compute; reflexivity. Qed.

(** In the bit-field [Instruction], [regb] is the low nibble of [byte] and
    [regc] the high nibble. *)
Lemma bitfield_nibbles data :
  is_BYTE (byte data) →
  regb data = byte data `mod` 2 ^ 4
  ∧ regc data = byte data `div` 2 ^ 4
  ∧ byte data = Z.lor (Z.shiftl (regc data) 4) (regb data).
Proof.
  unfold is_BYTE. intros Hb.
  assert (Hlow : Z.land (byte data) 0xff = byte data).
  { change 0xff with (Z.ones 8). rewrite Z.land_ones by lia.
    by apply Z.mod_small. }
  split; [|split].
  - unfold regb. change 0xf with (Z.ones 4). apply Z.land_ones. lia.
  - unfold regc. change 0xf with (Z.ones 4).
    rewrite Z.land_ones, Z.shiftr_div_pow2 by lia.
    apply Z.mod_small. split.
    + apply Z.div_pos; lia.
    + apply Z.div_lt_upper_bound; lia.
  - unfold regb, regc. rewrite <- low_byte_of_nibbles. by symmetry.
Qed.

(** C6, as the code has it. [byte] and the pair [regb], [regc] are two
    readings of the same eight bits, and either determines the other.  In
    the bit-field [Instruction] the first declared field is the lower one:
    [regb] is the low nibble of [byte] and [regc] the high nibble,
    [byte = (regc << 4) | regb].  In the shift/mask [Instruction], for
    every word, [byte()] is the full low byte with [regb()] as its high
    nibble and [regc()] as its low nibble,
    [byte() = (regb() << 4) | regc()]. *)
Theorem byte_is_two_nibbles (data : Instruction) (word : Z) :
  wf_Instruction data →
  (regb data = byte data `mod` 2 ^ 4
   ∧ regc data = byte data `div` 2 ^ 4
   ∧ byte data = Z.lor (Z.shiftl (regc data) 4) (regb data)
   ∧ byte data = 16 * regc data + regb data)
  ∧ (Packed.regb word = (word `div` 2 ^ 4) `mod` 2 ^ 4
     ∧ Packed.regc word = word `mod` 2 ^ 4
     ∧ Packed.byte word = word `mod` 2 ^ 8
     ∧ Packed.byte word
       = Z.lor (Z.shiftl (Packed.regb word) 4) (Packed.regc word)
     ∧ Packed.byte word = 16 * Packed.regb word + Packed.regc word).
Proof.
  intros (_ & _ & Hbyte).
  destruct (bitfield_nibbles data Hbyte) as (Hb & Hc & Hlor).
  destruct (Packed_nibbles word) as (Hpb & Hpc & Hpbyte & Hplor).
  split.
  - split; [exact Hb|]. split; [exact Hc|]. split; [exact Hlor|].
    rewrite Hb, Hc. change (2 ^ 4) with 16.
    pose proof (Z.div_mod (byte data) 16). lia.
  - split; [exact Hpb|]. split; [exact Hpc|]. split; [exact Hpbyte|].
    split; [exact Hplor|].
    rewrite Hpb, Hpc, Hpbyte. change (2 ^ 4) with 16. change (2 ^ 8) with 256.
    pose proof (Z.div_mod word 16 ltac:(lia)).
    pose proof (Z.div_mod (word `div` 16) 16 ltac:(lia)).
    pose proof (Z.div_mod word 256 ltac:(lia)).
    pose proof (Z.mod_pos_bound word 16 ltac:(lia)).
    pose proof (Z.mod_pos_bound (word `div` 16) 16 ltac:(lia)).
    pose proof (Z.mod_pos_bound word 256 ltac:(lia)).
    assert ((word `div` 16) `div` 16 = word `div` 256)
      by (rewrite Z.div_div by lia; reflexivity).
    lia.
Qed.

(** [byte_is_two_nibbles] on [ADD 1, 2, 3], as the bit-field instruction
    with registers B = 2 and C = 3 and as the word 0xC123. *)
Lemma byte_is_two_nibbles_ADD_1_2_3 :
  (regb (Instruction_regs OP.ADD 1 2 3)
   = byte (Instruction_regs OP.ADD 1 2 3) `mod` 2 ^ 4
   ∧ regc (Instruction_regs OP.ADD 1 2 3)
     = byte (Instruction_regs OP.ADD 1 2 3) `div` 2 ^ 4
   ∧ byte (Instruction_regs OP.ADD 1 2 3)
     = Z.lor (Z.shiftl (regc (Instruction_regs OP.ADD 1 2 3)) 4)
         (regb (Instruction_regs OP.ADD 1 2 3))
   ∧ byte (Instruction_regs OP.ADD 1 2 3)
     = 16 * regc (Instruction_regs OP.ADD 1 2 3)
       + regb (Instruction_regs OP.ADD 1 2 3))
  ∧ (Packed.regb 0xC123 = (0xC123 `div` 2 ^ 4) `mod` 2 ^ 4
     ∧ Packed.regc 0xC123 = 0xC123 `mod` 2 ^ 4
     ∧ Packed.byte 0xC123 = 0xC123 `mod` 2 ^ 8
     ∧ Packed.byte 0xC123
       = Z.lor (Z.shiftl (Packed.regb 0xC123) 4) (Packed.regc 0xC123)
     ∧ Packed.byte 0xC123 = 16 * Packed.regb 0xC123 + Packed.regc 0xC123).
Proof.
  apply (byte_is_two_nibbles (Instruction_regs OP.ADD 1 2 3) 0xC123).
  vm_compute. repeat split; discriminate.
Defined.

(** Against C6 as the specification states it ([byte] is [regb] in the high
    nibble, [regc] in the low one): the bit-field instruction built with
    registers B = 2 and C = 3 has the byte 0x32, not 0x23, and the one built
    with the immediate 0xAB reads back B = 0xB and C = 0xA. *)
Lemma bitfield_byte_has_regb_low :
  regb (Instruction_regs OP.ADD 1 2 3) = 2
  ∧ regc (Instruction_regs OP.ADD 1 2 3) = 3
  ∧ byte (Instruction_regs OP.ADD 1 2 3) = 0x32
  ∧ Z.lor (Z.shiftl (regb (Instruction_regs OP.ADD 1 2 3)) 4)
      (regc (Instruction_regs OP.ADD 1 2 3)) = 0x23
  ∧ byte (Instruction_regs OP.ADD 1 2 3)
    ≠ Z.lor (Z.shiftl (regb (Instruction_regs OP.ADD 1 2 3)) 4)
        (regc (Instruction_regs OP.ADD 1 2 3))
  ∧ byte (Instruction_byte OP.SHB 1 0xAB) = 0xAB
  ∧ regb (Instruction_byte OP.SHB 1 0xAB) = 0xB
  ∧ regc (Instruction_byte OP.SHB 1 0xAB) = 0xA.
Proof. repeat split; vm_compute; congruence. Qed.

(** ** reset *)

(** C4, as the code has it. After [reset()], called from any state, the
    clock is 0, the run state is stopped, every register is 0x0000, every
    memory cell is 0xFFFF and every slot of the program store is the
    default [STP] instruction; the arrays keep their sizes and the program
    counter keeps the value it had. *)
Theorem reset_inspection (c : CPU) :
  tick (reset c) = 0
  ∧ status (reset c) = stopped
  ∧ reg (reset c) = replicate (length (reg c)) 0x0000
  ∧ mem (reset c) = replicate (length (mem c)) 0xFFFF
  ∧ program (reset c) = replicate (length (program c)) Instruction_default
  ∧ code Instruction_default = OP.STP
  ∧ PC (reset c) = PC c.
Proof.
  unfold reset; simpl.
  repeat split; apply const_fmap; done.
Qed.

(** The constructor and the setters give well-formed machines. *)
Lemma wf_init_pro : wf_Instruction init_pro.
Proof.
  unfold wf_Instruction, is_BYTE, init_pro, Instruction_default, OP.STP.
  cbn [code rega byte]. lia.
Qed.

Lemma wf_reset c :
  is_WORD (PC c) →
  Z.of_nat (length (program c)) = pro_size →
  Z.of_nat (length (reg c)) = reg_size →
  Z.of_nat (length (mem c)) = mem_size →
  wf_CPU (reset c).
Proof.
  intros HPC Hp Hr Hm.
  split; unfold reset; cbn [tick status PC program reg mem];
    rewrite ?length_fmap; try assumption.
  - unfold is_COUNT. lia.
  - apply Forall_fmap, Forall_true. intros ?. apply wf_init_pro.
  - apply Forall_fmap, Forall_true. intros ?. unfold compose, is_WORD, init_reg. lia.
  - apply Forall_fmap, Forall_true. intros ?. unfold compose, is_WORD, init_mem. lia.
Qed.

Lemma wf_CPU_new : wf_CPU CPU_new.
Proof.
  apply wf_reset; cbn [PC program reg mem]; rewrite ?length_replicate;
    rewrite ?Z2Nat.id; try reflexivity; try done.
Qed.

Lemma wf_set_PC c pc : wf_CPU c → is_WORD pc → wf_CPU (set_PC c pc).
Proof. intros [] Hpc. split; assumption. Qed.

Lemma wf_set_status c s : wf_CPU c → wf_CPU (set_status c s).
Proof. intros []. split; assumption. Qed.

Lemma wf_set_tick c t : wf_CPU c → is_COUNT t → wf_CPU (set_tick c t).
Proof. intros [] Ht. split; assumption. Qed.

Lemma wf_set_reg c r :
  wf_CPU c → Z.of_nat (length r) = reg_size → Forall is_WORD r →
  wf_CPU (set_reg c r).
Proof. intros [] Hl Hr. split; assumption. Qed.

Lemma wf_set_mem c m :
  wf_CPU c → Z.of_nat (length m) = mem_size → Forall is_WORD m →
  wf_CPU (set_mem c m).
Proof. intros [] Hl Hm. split; assumption. Qed.

Lemma wf_set_program c p :
  wf_CPU c → Z.of_nat (length p) = pro_size → Forall wf_Instruction p →
  wf_CPU (set_program c p).
Proof. intros [] Hl Hp. split; assumption. Qed.

Lemma wf_CPU_with_regs r1 v1 r2 v2 :
  is_WORD v1 → is_WORD v2 → wf_CPU (CPU_with_regs r1 v1 r2 v2).
Proof.
  intros H1 H2. pose proof wf_CPU_new as Hwf. unfold CPU_with_regs.
  apply wf_set_reg; [done| |].
  - rewrite !length_insert. apply Hwf.
  - apply Forall_insert; [|done]. apply Forall_insert; [|done]. apply Hwf.
Qed.

(** Against C4 as the specification states it (PC = 0 after [reset()]):
    a machine whose program counter is 5 when [reset()] is called still
    has it at 5 afterwards. *)
Lemma reset_leaves_PC :
  wf_CPU (set_PC CPU_new 5)
  ∧ PC (reset (set_PC CPU_new 5)) = 5
  ∧ PC (reset (set_PC CPU_new 5)) ≠ 0.
Proof.
  split; [|split].
  - apply wf_set_PC; [apply wf_CPU_new|]. unfold is_WORD. lia.
  - reflexivity.
  - discriminate.
Qed.

(** ** Frame: the program store *)

(** No handler assigns to [program]. *)
Lemma RUN_frame c data t c' :
  RUN c data = Some (t, c') → program c' = program c.
Proof.
  pattern (RUN c data). apply RUN_cases; intros _ H.
  all: handler_inv H; reflexivity.
Qed.

Lemma step_frame c t c' : step c = Some (t, c') → program c' = program c.
Proof.
  unfold step. intros H. simplify_option_eq.
  match goal with H : RUN _ _ = Some _ |- _ => apply RUN_frame in H end.
  assumption.
Qed.

Lemma loop_frame fuel c c' :
  loop fuel c = Returned c' → program c' = program c.
Proof.
  revert c. induction fuel as [|fuel IH]; intros c; simpl.
  - destruct (status c); [done|]. by intros [= ->].
  - destruct (status c); [|by intros [= ->]].
    destruct (step c) as [[t c1]|] eqn:Hs; [|done].
    intros H%IH. rewrite H. by eapply step_frame.
Qed.

(** [STR] writes the memory bank (and the clock) and nothing else. *)
Lemma STR_frame c data t c' :
  STR c data = Some (t, c') →
  program c' = program c ∧ reg c' = reg c ∧ PC c' = PC c
  ∧ status c' = status c.
Proof. intros H. handler_inv H. done. Qed.

(** C10. Executing any single instruction, whatever its opcode and its
    operands and whatever the state, leaves the program store as it was:
    no handler writes it, [STR] writes the memory bank only, and so a
    fetch-execute turn and a whole run of [start] leave it unchanged too. *)
Theorem program_store_unchanged (c : CPU) (data : Instruction) (t : Z) (c' : CPU) :
  RUN c data = Some (t, c') →
  program c' = program c
  ∧ (∀ t1 c1, step c = Some (t1, c1) → program c1 = program c)
  ∧ (∀ fuel pc c1, start fuel c pc = Returned c1 → program c1 = program c).
Proof.
  intros H. split; [by eapply RUN_frame|]. split.
  - intros t1 c1. apply step_frame.
  - intros fuel pc c1 H1%loop_frame. exact H1.
Qed.

(** ** Well-formed machines stay well-formed, and run *)

Lemma get_reg_Some c r :
  wf_CPU c → 0 ≤ r < 2 ^ 4 → ∃ v, get_reg c r = Some v ∧ is_WORD v.
Proof.
  intros Hwf Hr. unfold get_reg.
  destruct (array_get_is_Some (reg c) r) as [v Hv].
  { rewrite (wf_reg_size _ Hwf). unfold reg_size. lia. }
  exists v. split; [done|].
  eapply array_get_Forall; [apply (wf_reg _ Hwf)|done].
Qed.

Lemma get_reg_is_WORD c r v : wf_CPU c → get_reg c r = Some v → is_WORD v.
Proof. intros Hwf. apply array_get_Forall, Hwf. Qed.

Lemma get_mem_Some c a :
  wf_CPU c → is_WORD a → ∃ v, get_mem c a = Some v ∧ is_WORD v.
Proof.
  intros Hwf Ha. unfold get_mem.
  destruct (array_get_is_Some (mem c) a) as [v Hv].
  { rewrite (wf_mem_size _ Hwf). unfold mem_size, is_WORD in *. lia. }
  exists v. split; [done|].
  eapply array_get_Forall; [apply (wf_mem _ Hwf)|done].
Qed.

Lemma get_mem_is_WORD c a v : wf_CPU c → get_mem c a = Some v → is_WORD v.
Proof. intros Hwf. apply array_get_Forall, Hwf. Qed.

Lemma put_reg_wf c r v :
  wf_CPU c → 0 ≤ r < 2 ^ 4 →
  ∃ c', put_reg c r v = Some c' ∧ wf_CPU c'.
Proof.
  intros Hwf Hr. eexists. split.
  - apply put_reg_Some. rewrite (wf_reg_size _ Hwf). unfold reg_size. lia.
  - apply wf_set_reg; [done| |].
    + rewrite length_insert. apply Hwf.
    + apply Forall_insert; [apply Hwf|apply to_WORD_is_WORD].
Qed.

Lemma put_mem_wf c a v :
  wf_CPU c → is_WORD a →
  ∃ c', put_mem c a v = Some c' ∧ wf_CPU c'.
Proof.
  intros Hwf Ha. eexists. split.
  - apply put_mem_Some. rewrite (wf_mem_size _ Hwf).
    unfold mem_size, is_WORD in *. lia.
  - apply wf_set_mem; [done| |].
    + rewrite length_insert. apply Hwf.
    + apply Forall_insert; [apply Hwf|apply to_WORD_is_WORD].
Qed.

Lemma put_reg_preserves_wf c r v c' :
  wf_CPU c → put_reg c r v = Some c' → wf_CPU c'.
Proof.
  intros Hwf [Hr ->]%put_reg_inv. apply wf_set_reg; [done| |].
  - rewrite length_insert. apply Hwf.
  - apply Forall_insert; [apply Hwf|apply to_WORD_is_WORD].
Qed.

Lemma put_mem_preserves_wf c a v c' :
  wf_CPU c → put_mem c a v = Some c' → wf_CPU c'.
Proof.
  intros Hwf [Hr ->]%put_mem_inv. apply wf_set_mem; [done| |].
  - rewrite length_insert. apply Hwf.
  - apply Forall_insert; [apply Hwf|apply to_WORD_is_WORD].
Qed.

Lemma addTicks_preserves_wf c data t c' :
  wf_CPU c → addTicks c data = Some (t, c') → wf_CPU c'.
Proof.
  intros Hwf [_ ->]%addTicks_inv.
  apply wf_set_tick; [done|apply to_COUNT_is_COUNT].
Qed.

Lemma addTicks_wf c data :
  wf_CPU c → 0 ≤ code data < 2 ^ 4 →
  ∃ t c', addTicks c data = Some (t, c') ∧ wf_CPU c'.
Proof.
  intros Hwf Hc. destruct (addTicks_Some c data Hc) as [[t c'] H].
  exists t, c'. split; [done|]. by eapply addTicks_preserves_wf.
Qed.

(** Every handler keeps the machine well-formed. *)
Ltac wf_step :=
  match goal with
  | |- wf_CPU (set_PC _ _) => apply wf_set_PC
  | |- wf_CPU (set_status _ _) => apply wf_set_status
  | H : put_reg ?c _ _ = Some ?c' |- wf_CPU ?c' =>
      eapply (put_reg_preserves_wf c); [|exact H]
  | H : put_mem ?c _ _ = Some ?c' |- wf_CPU ?c' =>
      eapply (put_mem_preserves_wf c); [|exact H]
  | H : addTicks ?c _ = Some (_, ?c') |- wf_CPU ?c' =>
      eapply (addTicks_preserves_wf c); [|exact H]
  | |- is_WORD (to_WORD _) => apply to_WORD_is_WORD
  | H : get_reg ?c _ = Some ?v |- is_WORD ?v =>
      eapply (get_reg_is_WORD c); [|exact H]
  | |- wf_CPU _ => assumption
  end.

Lemma RUN_preserves_wf c data t c' :
  wf_CPU c → RUN c data = Some (t, c') → wf_CPU c'.
Proof.
  intros Hwf. pattern (RUN c data). apply RUN_cases; intros _ H.
  all: unfold STP, JAL, JIE, JIL, STR, LOD, SHB, SLB,
              AND, NND, IOR, XOR, ADD, SUB, MUL, DIV, int_div in H;
       simplify_option_eq; repeat wf_step.
Qed.

Lemma step_preserves_wf c t c' :
  wf_CPU c → step c = Some (t, c') → wf_CPU c'.
Proof.
  unfold step. intros Hwf H. simplify_option_eq.
  eapply RUN_preserves_wf; [|eassumption].
  apply wf_set_PC; [done|apply to_WORD_is_WORD].
Qed.

(** On a well-formed machine every read and every write of a handler is
    within its array: the handlers return, but for a quotient by zero. *)
Ltac total_side :=
  first [ assumption | apply regb_range | apply regc_range
        | apply to_WORD_is_WORD
        | apply wf_set_PC; total_side
        | apply wf_set_status; total_side
        | match goal with H : wf_Instruction _ |- _ => apply H end ].

Ltac total_step :=
  match goal with
  | |- context [get_reg ?c ?r] =>
      let v := fresh "v" in let Hv := fresh "Hv" in let Hw := fresh "Hw" in
      destruct (get_reg_Some c r) as (v & Hv & Hw);
      [total_side | total_side | rewrite Hv; cbn [mbind option_bind]]
  | |- context [get_mem ?c ?a] =>
      let v := fresh "v" in let Hv := fresh "Hv" in let Hw := fresh "Hw" in
      destruct (get_mem_Some c a) as (v & Hv & Hw);
      [total_side | total_side | rewrite Hv; cbn [mbind option_bind]]
  | |- context [put_reg ?c ?r ?v] =>
      let c1 := fresh "c" in let Hc := fresh "Hc" in let Hw := fresh "Hwf" in
      destruct (put_reg_wf c r v) as (c1 & Hc & Hw);
      [total_side | total_side | rewrite Hc; cbn [mbind option_bind]]
  | |- context [put_mem ?c ?a ?v] =>
      let c1 := fresh "c" in let Hc := fresh "Hc" in let Hw := fresh "Hwf" in
      destruct (put_mem_wf c a v) as (c1 & Hc & Hw);
      [total_side | total_side | rewrite Hc; cbn [mbind option_bind]]
  | |- context [addTicks ?c ?data] =>
      let t := fresh "t" in let c1 := fresh "c" in
      let Hc := fresh "Hc" in let Hw := fresh "Hwf" in
      destruct (addTicks_wf c data) as (t & c1 & Hc & Hw);
      [total_side | total_side | rewrite Hc; by eexists]
  | |- context [decide ?P] => destruct (decide P)
  end.

Lemma RUN_defined c data :
  wf_CPU c → wf_Instruction data →
  (code data = OP.DIV → get_reg c (regc data) ≠ Some 0) →
  is_Some (RUN c data).
Proof.
  intros Hwf Hdata Hdiv. pattern (RUN c data). apply RUN_cases; intros Hcode.
  all: try (unfold STP, JAL, JIE, JIL, STR, LOD, SHB, SLB,
              AND, NND, IOR, XOR, ADD, SUB, MUL, DIV, int_div; cbv zeta;
            repeat (total_step; cbn [mbind option_bind])).
  - match goal with
    | e : ?v = 0, Hv : get_reg c (regc data) = Some ?v |- _ =>
        rewrite e in Hv; destruct (Hdiv Hcode Hv)
    end.
  - destruct Hdata as [Hc _]. lia.
Qed.

Lemma step_defined c :
  wf_CPU c →
  (∀ data, array_get (program c) (PC c) = Some data → code data = OP.DIV →
           get_reg c (regc data) ≠ Some 0) →
  is_Some (step c).
Proof.
  intros Hwf Hdiv. unfold step.
  destruct (array_get_is_Some (program c) (PC c)) as [data Hdata].
  { rewrite (wf_program_size _ Hwf). destruct (wf_PC _ Hwf). unfold pro_size. lia. }
  rewrite Hdata. cbn [mbind option_bind].
  apply RUN_defined.
  - apply wf_set_PC; [done|apply to_WORD_is_WORD].
  - eapply array_get_Forall; [apply (wf_program _ Hwf)|done].
  - intros Hc. by apply Hdiv.
Qed.

(** ** Arithmetic instructions *)

(** The tail of every three-register handler: store [v] into register A,
    then add the ticks; register A then reads as the low 16 bits of [v]. *)
Lemma store_then_addTicks c data v :
  wf_CPU c → wf_Instruction data →
  ∃ t c',
    (put_reg c (rega data) v ≫= λ c1, addTicks c1 data) = Some (t, c')
    ∧ get_reg c' (rega data) = Some (to_WORD v)
    ∧ status c' = status c ∧ PC c' = PC c ∧ mem c' = mem c.
Proof.
  intros Hwf (Hcode & Hrega & _).
  assert (Hr : 0 ≤ rega data < Z.of_nat (length (reg c))).
  { rewrite (wf_reg_size _ Hwf). unfold reg_size. lia. }
  rewrite put_reg_Some by done. cbn [mbind option_bind].
  destruct (addTicks_Some
    (set_reg c (<[Z.to_nat (rega data) := to_WORD v]> (reg c))) data Hcode)
    as [[t c'] Ht].
  exists t, c'. split; [done|].
  apply addTicks_inv in Ht as [_ ->].
  unfold get_reg. cbn [reg status PC mem set_tick set_reg].
  by rewrite array_get_insert.
Qed.


(** The boundaries the specification names, on the machine itself. *)
Lemma ADD_SUB_MUL_boundaries :
  observe 0 (RUN (CPU_with_regs 1 0xFFFF 2 0x0001) (Instruction_regs OP.ADD 0 1 2))
    = Some (8, 0, Some 0x0000)
  ∧ observe 0 (RUN (CPU_with_regs 1 0x0000 2 0x0001) (Instruction_regs OP.SUB 0 1 2))
    = Some (8, 0, Some 0xFFFF)
  ∧ observe 0 (RUN (CPU_with_regs 1 0x8000 2 0x0002) (Instruction_regs OP.MUL 0 1 2))
    = Some (32, 0, Some 0x0000)
  ∧ observe 0 (RUN (CPU_with_regs 1 0xFFFF 2 0xFFFF) (Instruction_regs OP.MUL 0 1 2))
    = Some (32, 0, Some 0x0001).
Proof. repeat split; vm_compute; reflexivity. Qed.

Lemma wf_Instruction_regs op ra rb rc :
  wf_Instruction (Instruction_regs op ra rb rc).
Proof.
  unfold wf_Instruction, Instruction_regs, is_BYTE. cbn [code rega byte].
  pose proof (Z.mod_pos_bound op (2 ^ 4) ltac:(lia)).
  pose proof (Z.mod_pos_bound ra (2 ^ 4) ltac:(lia)).
  pose proof (Z.mod_pos_bound rb (2 ^ 4) ltac:(lia)).
  pose proof (Z.mod_pos_bound rc (2 ^ 4) ltac:(lia)).
  repeat split; try lia.
  - apply Z.lor_nonneg. split; [|apply Z.shiftl_nonneg]; lia.
  - rewrite Z.shiftl_mul_pow2 by lia.
    pose proof (Z.add_lor_land (rb mod 2 ^ 4) (rc mod 2 ^ 4 * 2 ^ 4)) as Hsum.
    assert (0 ≤ Z.land (rb mod 2 ^ 4) (rc mod 2 ^ 4 * 2 ^ 4))
      by (apply Z.land_nonneg; lia).
    lia.
Qed.


(** ** Division by zero *)

Lemma DIV_by_zero c data :
  get_reg c (regc data) = Some 0 → DIV c data = None.
Proof.
  intros Hc. unfold DIV. rewrite Hc.
  destruct (get_reg c (regb data)); reflexivity.
Qed.

(** C2, as the code has it. For every machine state, a [DIV] whose
    register C holds 0 has no defined result: the handler divides without
    looking at the divisor, so [RUN] returns neither a tick count nor an
    error value and there is no state after it, stopped or otherwise; the
    turn of the loop that fetches such an instruction has no result, and
    neither has the run of [start] that reaches it. *)
Theorem DIV_by_zero_undefined (c : CPU) (data : Instruction) :
  code data = OP.DIV →
  get_reg c (regc data) = Some 0 →
  DIV c data = None
  ∧ RUN c data = None
  ∧ (array_get (program c) (PC c) = Some data →
     step c = None
     ∧ (status c = running → ∀ fuel, loop (S fuel) c = Undefined)).
Proof.
  intros Hcode Hzero.
  destruct (RUN_opcode c data) as (_ & _ & _ & _ & HDIV & _).
  split; [by apply DIV_by_zero|]. split.
  - rewrite HDIV by done. by apply DIV_by_zero.
  - intros Hfetch.
    assert (Hstep : step c = None).
    { unfold step. rewrite Hfetch. cbn [mbind option_bind].
      destruct (RUN_opcode (set_PC c (to_WORD (PC c + 1))) data)
        as (_ & _ & _ & _ & HDIV' & _).
      rewrite HDIV' by done. by apply DIV_by_zero. }
    split; [done|]. intros Hrun fuel. simpl. by rewrite Hrun, Hstep.
Qed.

(** [DIV_by_zero_undefined] on a machine that divides 7 by 0. *)
Lemma DIV_by_zero_undefined_at_7_by_0 :
  DIV DIV_by_zero_machine DIV_by_zero_instruction = None
  ∧ RUN DIV_by_zero_machine DIV_by_zero_instruction = None
  ∧ (array_get (program DIV_by_zero_machine) (PC DIV_by_zero_machine)
       = Some DIV_by_zero_instruction →
     step DIV_by_zero_machine = None
     ∧ (status DIV_by_zero_machine = running →
        ∀ fuel, loop (S fuel) DIV_by_zero_machine = Undefined)).
Proof.
  apply (DIV_by_zero_undefined DIV_by_zero_machine DIV_by_zero_instruction).
  - reflexivity.
  - vm_compute. reflexivity.
Defined.

(** Against C2 as the specification states it (an error result, the run
    state stopped, register A unmodified): on that machine the [DIV]
    leaves no state in which the run state is stopped and register A is as
    before, and [start] does not return. *)
Lemma DIV_by_zero_no_stopped_state :
  get_reg DIV_by_zero_machine (regc DIV_by_zero_instruction) = Some 0
  ∧ code DIV_by_zero_instruction = OP.DIV
  ∧ (¬ ∃ t c', RUN DIV_by_zero_machine DIV_by_zero_instruction = Some (t, c')
               ∧ status c' = stopped
               ∧ get_reg c' (rega DIV_by_zero_instruction)
                 = get_reg DIV_by_zero_machine (rega DIV_by_zero_instruction))
  ∧ start 1 DIV_by_zero_machine 0 = Undefined.
Proof.
  split; [vm_compute; reflexivity|]. split; [reflexivity|]. split.
  - intros (t & c' & Hrun & _).
    assert (Hnone : RUN DIV_by_zero_machine DIV_by_zero_instruction = None)
      by (vm_compute; reflexivity).
    rewrite Hnone in Hrun. discriminate Hrun.
  - vm_compute. reflexivity.
Qed.

(** ** Jump and link *)

(** C3, as the code has it. [JAL] fetched from address [p] finds the program
    counter already at [p + 1], increments it once more and links that:
    register A receives [p + 2] (wrapped to 16 bits), and the program
    counter the value register B held. *)
Theorem JAL_links_two_past_fetch (c : CPU) (data : Instruction) (b : Z) :
  wf_CPU c → wf_Instruction data →
  array_get (program c) (PC c) = Some data →
  code data = OP.JAL →
  get_reg c (regb data) = Some b →
  ∃ c', step c = Some (4, c')
        ∧ get_reg c' (rega data) = Some ((PC c + 2) mod 65536)
        ∧ PC c' = b.
Proof.
  intros Hwf Hdata Hfetch Hcode Hb.
  unfold step. rewrite Hfetch. cbn [mbind option_bind].
  destruct (RUN_opcode (set_PC c (to_WORD (PC c + 1))) data)
    as (_ & _ & _ & _ & _ & HJAL).
  rewrite HJAL by done. unfold JAL. cbv zeta.
  change (get_reg (set_PC (set_PC c (to_WORD (PC c + 1)))
            (to_WORD (PC (set_PC c (to_WORD (PC c + 1))) + 1))) (regb data))
    with (get_reg c (regb data)).
  rewrite Hb. cbn [mbind option_bind PC set_PC].
  set (c1 := set_PC _ b).
  assert (Hwf1 : wf_CPU c1).
  { apply wf_set_PC; [|by eapply get_reg_is_WORD].
    repeat (apply wf_set_PC; [|apply to_WORD_is_WORD]). done. }
  destruct (store_then_addTicks c1 data (to_WORD (to_WORD (PC c + 1) + 1))
              Hwf1 Hdata) as (t & c' & Hrun & Hget & _ & HPC & _).
  rewrite Hrun.
  assert (Ht : t = 4).
  { apply bind_Some in Hrun as (c2 & _ & [Ht _]%addTicks_inv).
    rewrite Hcode in Ht. vm_compute in Ht. congruence. }
  subst t. exists c'. split; [done|]. split; [|done].
  rewrite Hget. f_equal. unfold to_WORD.
  rewrite Z.mod_mod by lia. rewrite Zplus_mod_idemp_l.
  f_equal. lia.
Qed.

Lemma wf_JAL_machine : wf_CPU JAL_machine.
Proof.
  unfold JAL_machine.
  apply wf_set_PC; [|unfold is_WORD; lia].
  apply wf_set_program.
  - apply wf_CPU_with_regs; unfold is_WORD; lia.
  - rewrite length_insert. apply wf_CPU_new.
  - apply Forall_insert; [apply wf_CPU_new|apply wf_Instruction_regs].
Qed.

(** [JAL_links_two_past_fetch] at the example of the specification:
    [JAL(A=1, B=2)] fetched at address 10 with register 2 holding 0x20
    leaves 12 in register 1, and the next fetch is at 0x20. *)
Lemma JAL_at_10_links_12 :
  ∃ c', step JAL_machine = Some (4, c')
        ∧ get_reg c' (rega (Instruction_regs OP.JAL 1 2 0))
          = Some ((PC JAL_machine + 2) mod 65536)
        ∧ PC c' = 0x20.
Proof.
  apply (JAL_links_two_past_fetch JAL_machine (Instruction_regs OP.JAL 1 2 0) 0x20).
  - apply wf_JAL_machine.
  - apply wf_Instruction_regs.
  - vm_compute. reflexivity.
  - reflexivity.
  - vm_compute. reflexivity.
Defined.

Lemma JAL_at_10_observed :
  observe 1 (step JAL_machine) = Some (4, 0x20, Some 12).
Proof. vm_compute. reflexivity. Qed.

(** ** loadProgram *)

Lemma loadProgram_loop_length n i in_program prog :
  length (loadProgram_loop n i in_program prog) = length prog.
Proof.
  revert i prog. induction n as [|n IH]; intros i prog; simpl; [done|].
  rewrite IH. destruct (in_program !! i); apply length_insert.
Qed.

(** After [n] iterations from index [i], the slots [i .. i+n-1] hold the
    instructions given at those positions, or the default instruction
    where none was given; the other slots are untouched. *)
Lemma loadProgram_loop_lookup n i in_program prog j :
  (i + n ≤ length prog)%nat →
  loadProgram_loop n i in_program prog !! j =
    if decide (i ≤ j < i + n)%nat
    then Some (default init_pro (in_program !! j))
    else prog !! j.
Proof.
  revert i prog. induction n as [|n IH]; intros i prog Hlen; simpl.
  - rewrite decide_False by lia. done.
  - rewrite IH by (destruct (in_program !! i); rewrite length_insert; lia).
    destruct (decide (j = i)) as [->|Hne].
    + rewrite decide_False, decide_True by lia.
      destruct (in_program !! i); simpl; apply list_lookup_insert_eq; lia.
    + destruct (decide (S i ≤ j < S i + n)%nat).
      * rewrite decide_True by lia. done.
      * rewrite decide_False by lia.
        destruct (in_program !! i); apply list_lookup_insert_ne; lia.
Qed.

(** What [loadProgram] leaves in the program store, for a sequence of any
    length: its first [pro_size] instructions, then default instructions
    up to [pro_size]. *)
Lemma loadProgram_program c in_program :
  Z.of_nat (length (program c)) = pro_size →
  program (loadProgram c in_program)
  = take (Z.to_nat pro_size) in_program
    ++ replicate (Z.to_nat pro_size - length in_program) init_pro.
Proof.
  intros Hsize. unfold loadProgram. cbn [program set_program].
  assert (Hlen : length (program c) = Z.to_nat pro_size) by lia.
  generalize dependent (Z.to_nat pro_size). intros N Hlen.
  apply list_eq. intros j.
  rewrite loadProgram_loop_lookup by lia.
  destruct (decide (0 ≤ j < 0 + N)%nat) as [Hj|Hj].
  - destruct (decide (j < length in_program)%nat) as [Hin|Hout].
    + rewrite lookup_app_l by (rewrite length_take; lia).
      rewrite lookup_take_lt by lia.
      destruct (lookup_lt_is_Some_2 in_program j Hin) as [x Hx].
      by rewrite Hx.
    + rewrite lookup_app_r by (rewrite length_take; lia).
      rewrite length_take, lookup_replicate_2 by lia.
      by rewrite (lookup_ge_None_2 in_program j) by lia.
  - rewrite (lookup_ge_None_2 (program c) j) by lia.
    symmetry. apply lookup_ge_None_2.
    rewrite length_app, length_take, length_replicate. lia.
Qed.

(** C5, as the code has it. [loadProgram] takes a sequence of any length
    and always returns: it copies the sequence into the program store from
    address 0 and fills every remaining slot with the default instruction;
    of a sequence longer than the store it keeps the first 65536
    instructions.  For a sequence of length at most 65536 the store is the
    sequence followed by default instructions. *)
Theorem loadProgram_copies_and_fills (c : CPU) (in_program : list Instruction) :
  Z.of_nat (length (program c)) = pro_size →
  program (loadProgram c in_program)
  = take (Z.to_nat 65536) in_program
    ++ replicate (Z.to_nat 65536 - length in_program) Instruction_default
  ∧ Z.of_nat (length (program (loadProgram c in_program))) = 65536
  ∧ (Z.of_nat (length in_program) ≤ 65536 →
     program (loadProgram c in_program)
     = in_program
       ++ replicate (Z.to_nat 65536 - length in_program) Instruction_default)
  ∧ (65536 < Z.of_nat (length in_program) →
     program (loadProgram c in_program) = take (Z.to_nat 65536) in_program).
Proof.
  intros Hsize. pose proof (loadProgram_program c in_program Hsize) as Hp.
  change pro_size with 65536 in *. change init_pro with Instruction_default in *.
  split; [done|]. split; [|split].
  - unfold loadProgram. cbn [program set_program].
    by rewrite loadProgram_loop_length.
  - intros Hle. rewrite Hp. by rewrite take_ge by lia.
  - intros Hgt. rewrite Hp.
    replace (Z.to_nat 65536 - length in_program)%nat with 0%nat by lia.
    apply app_nil_r.
Qed.

(** [loadProgram_copies_and_fills] for a program of two instructions. *)
Lemma loadProgram_copies_and_fills_two :
  program (loadProgram CPU_new
             [Instruction_regs OP.JAL 1 2 0; Instruction_op OP.STP])
  = take (Z.to_nat 65536)
      [Instruction_regs OP.JAL 1 2 0; Instruction_op OP.STP]
    ++ replicate
         (Z.to_nat 65536
          - length [Instruction_regs OP.JAL 1 2 0; Instruction_op OP.STP])
         Instruction_default.
Proof.
  exact (proj1 (loadProgram_copies_and_fills CPU_new
                  [Instruction_regs OP.JAL 1 2 0; Instruction_op OP.STP]
                  (wf_program_size _ wf_CPU_new))).
Defined.

(** Against C5 as the specification states it (a longer sequence is
    rejected, never truncated): given 65537 instructions, [loadProgram]
    returns a machine whose program store holds the first 65536 of them;
    the last one, a [JAL], is dropped without any failure. *)
Lemma loadProgram_truncates :
  Z.of_nat (length long_program) = 65537
  ∧ program (loadProgram CPU_new long_program)
    = take (Z.to_nat 65536) long_program
  ∧ take (Z.to_nat 65536) long_program ≠ long_program
  ∧ Instruction_regs OP.JAL 1 2 0 ∈ long_program
  ∧ Instruction_regs OP.JAL 1 2 0 ∉ program (loadProgram CPU_new long_program).
Proof.
  assert (Hlen : Z.of_nat (length long_program) = 65537).
  { unfold long_program. rewrite length_app, length_replicate.
    unfold pro_size. cbn [length]. lia. }
  assert (Hp : program (loadProgram CPU_new long_program)
               = take (Z.to_nat 65536) long_program).
  { rewrite loadProgram_program by exact (wf_program_size _ wf_CPU_new).
    replace (Z.to_nat pro_size - length long_program)%nat with 0%nat
      by (unfold pro_size; lia).
    apply app_nil_r. }
  assert (Htake : take (Z.to_nat 65536) long_program
                  = replicate (Z.to_nat pro_size) init_pro).
  { unfold long_program. change 65536 with pro_size.
    rewrite take_app_le by (rewrite length_replicate; lia).
    apply take_ge. rewrite length_replicate. lia. }
  split; [exact Hlen|]. split; [exact Hp|]. split; [|split].
  - intros Heq. apply (f_equal length) in Heq.
    rewrite length_take in Heq. lia.
  - unfold long_program. apply elem_of_app. right. apply list_elem_of_singleton.
    reflexivity.
  - rewrite Hp, Htake. intros [Heq _]%elem_of_replicate.
    apply (f_equal code) in Heq. vm_compute in Heq. discriminate Heq.
Qed.

(** ** The clock *)

(** The tick table of the code is the "Ticks" column of the
    specification, opcode by opcode. *)
Lemma tick_count_spec op t :
  array_get OP.tick_count op = Some t → t = spec_ticks op.
Proof.
  intros Ht. pose proof (array_get_Some_range _ _ _ Ht) as Hr.
  cbn [length OP.tick_count] in Hr.
  assert (Hop : op = 0 ∨ op = 1 ∨ op = 2 ∨ op = 3 ∨ op = 4 ∨ op = 5 ∨ op = 6
                ∨ op = 7 ∨ op = 8 ∨ op = 9 ∨ op = 10 ∨ op = 11 ∨ op = 12
                ∨ op = 13 ∨ op = 14 ∨ op = 15) by lia.
  repeat (destruct Hop as [->|Hop]); try subst op;
    vm_compute in Ht; injection Ht as <-; reflexivity.
Qed.

Lemma spec_ticks_out_of_range op : ¬ 0 ≤ op < 2 ^ 4 → spec_ticks op = 0.
Proof.
  intros Hop. destruct op as [|p|p]; [lia| |reflexivity].
  do 5 (try destruct p as [p|p|]); try reflexivity; lia.
Qed.

Lemma spec_ticks_nonneg op : 0 ≤ spec_ticks op.
Proof.
  destruct (decide (0 ≤ op < 2 ^ 4)) as [Hop|Hop].
  - assert (H : op = 0 ∨ op = 1 ∨ op = 2 ∨ op = 3 ∨ op = 4 ∨ op = 5 ∨ op = 6
                ∨ op = 7 ∨ op = 8 ∨ op = 9 ∨ op = 10 ∨ op = 11 ∨ op = 12
                ∨ op = 13 ∨ op = 14 ∨ op = 15) by lia.
    repeat (destruct H as [->|H]); try subst op; vm_compute; discriminate.
  - by rewrite spec_ticks_out_of_range.
Qed.

Lemma total_ticks_nonneg trace : 0 ≤ total_ticks trace.
Proof.
  induction trace as [|e trace IH]; simpl; [done|].
  pose proof (spec_ticks_nonneg (code e.1)). lia.
Qed.

(** One instruction: the ticks returned, and added to the clock, are those
    of its opcode, whatever the operands hold and whichever way a
    conditional jump goes. *)
Lemma RUN_ticks c data t c' :
  is_COUNT (tick c) →
  RUN c data = Some (t, c') →
  t = spec_ticks (code data) ∧ tick c' = to_COUNT (tick c + t).
Proof.
  intros Htick. pattern (RUN c data). apply RUN_cases; intros Hcode H.
  1-16: handler_inv H;
    match goal with
    | Ht : array_get OP.tick_count _ = Some _ |- _ =>
        apply tick_count_spec in Ht
    end; done.
  injection H as <- <-. rewrite spec_ticks_out_of_range by done.
  split; [done|]. rewrite Z.add_0_r. symmetry. by apply to_COUNT_id.
Qed.

Lemma step_ticks c t c' :
  is_COUNT (tick c) →
  step c = Some (t, c') →
  ∃ data, array_get (program c) (PC c) = Some data
          ∧ t = spec_ticks (code data) ∧ tick c' = to_COUNT (tick c + t).
Proof.
  unfold step. intros Htick H. simplify_option_eq.
  eexists. split; [done|].
  match goal with H : RUN _ _ = Some _ |- _ => apply RUN_ticks in H end; done.
Qed.

(** The clock along [n] turns of the loop. *)
Lemma exec_ticks n c trace c' :
  is_COUNT (tick c) →
  exec n c = Some (trace, c') →
  length trace = n
  ∧ Forall (λ e, e.2 = spec_ticks (code e.1)) trace
  ∧ tick c' = to_COUNT (tick c + total_ticks trace).
Proof.
  revert c trace c'.
  induction n as [|n IH]; intros c trace c' Htick Hexec; simpl in Hexec.
  - injection Hexec as <- <-. simpl. rewrite Z.add_0_r.
    split; [done|]. split; [constructor|]. symmetry. by apply to_COUNT_id.
  - destruct (array_get (program c) (PC c)) as [data|] eqn:Hfetch;
      [|discriminate]. cbn [mbind option_bind] in Hexec.
    destruct (step c) as [[t c1]|] eqn:Hstep; [|discriminate].
    cbn [mbind option_bind] in Hexec.
    destruct (exec n c1) as [[trace1 c2]|] eqn:Hrest; [|discriminate].
    cbn [mbind option_bind] in Hexec. injection Hexec as <- <-.
    destruct (step_ticks c t c1 Htick Hstep) as (data' & Hfetch' & Ht & Hc1).
    assert (data' = data) by congruence. subst data'.
    destruct (IH c1 trace1 c2) as (Hlen & Hall & Hc2); [|done|].
    { rewrite Hc1. apply to_COUNT_is_COUNT. }
    split; [simpl; by rewrite Hlen|]. split; [by constructor|].
    rewrite Hc2, Hc1, to_COUNT_add_l. simpl. rewrite <- Ht. f_equal. lia.
Qed.

(** C7. For every sequence of [n] executed instructions, the clock has
    advanced by the sum of the costs that the table of the specification
    gives to their opcodes (in the 64 bits of the counter, and exactly so
    as long as the sum fits): each instruction returns and adds the cost
    of its opcode, which depends on nothing else. *)
Theorem clock_is_sum_of_opcode_costs
    (n : nat) (c : CPU) (trace : list (Instruction * Z)) (c' : CPU) :
  is_COUNT (tick c) →
  exec n c = Some (trace, c') →
  length trace = n
  ∧ Forall (λ e, e.2 = spec_ticks (code e.1)) trace
  ∧ tick c' = to_COUNT (tick c + total_ticks trace)
  ∧ (tick c + total_ticks trace < 2 ^ 64 →
     tick c' = tick c + total_ticks trace).
Proof.
  intros Htick Hexec.
  destruct (exec_ticks n c trace c' Htick Hexec) as (Hlen & Hall & Hsum).
  repeat split; try done.
  intros Hfits. rewrite Hsum. apply to_COUNT_id.
  pose proof (total_ticks_nonneg trace). unfold is_COUNT in *. lia.
Qed.

(** A run of [start] that returns has executed some sequence of
    instructions, one per turn of its loop. *)
Lemma loop_exec fuel c c' :
  loop fuel c = Returned c' →
  ∃ n trace, (n ≤ fuel)%nat ∧ exec n c = Some (trace, c').
Proof.
  revert c. induction fuel as [|fuel IH]; intros c; simpl.
  - destruct (status c); [done|]. intros [= ->]. by exists 0%nat, [].
  - destruct (status c); [|intros [= ->]; exists 0%nat, []; split; [lia|done]].
    destruct (step c) as [[t c1]|] eqn:Hstep; [|done].
    intros (n & trace & Hn & Hexec)%IH.
    assert (Hfetch : is_Some (array_get (program c) (PC c))).
    { unfold step in Hstep. destruct (array_get (program c) (PC c)); [by eexists|done]. }
    destruct Hfetch as [data Hfetch].
    exists (S n), ((data, t) :: trace). split; [lia|].
    simpl. rewrite Hfetch. cbn [mbind option_bind]. rewrite Hstep.
    cbn [mbind option_bind]. rewrite Hexec. done.
Qed.

(** So the clock that [start] leaves behind is the clock it found plus the
    costs of the opcodes of the instructions it executed. *)
Lemma start_ticks fuel c pc c' :
  is_COUNT (tick c) →
  start fuel c pc = Returned c' →
  ∃ trace,
    (length trace ≤ fuel)%nat
    ∧ tick c' = to_COUNT (tick c + total_ticks trace).
Proof.
  unfold start. intros Htick (n & trace & Hn & Hexec)%loop_exec.
  apply exec_ticks in Hexec as (Hlen & _ & Hsum); [|exact Htick].
  exists trace. split; [lia|exact Hsum].
Qed.

(** ** Opcodes 0xE and 0xF *)

(** With a divisor other than zero [DIV] returns, having stored the
    truncated quotient and left the run state alone. *)
Lemma DIV_nonzero c data b cv :
  wf_CPU c → wf_Instruction data →
  get_reg c (regb data) = Some b → get_reg c (regc data) = Some cv →
  cv ≠ 0 →
  ∃ t c', DIV c data = Some (t, c')
          ∧ get_reg c' (rega data) = Some (b `quot` cv)
          ∧ status c' = status c.
Proof.
  intros Hwf Hdata Hb Hc Hne. unfold DIV, int_div.
  rewrite Hb, Hc. cbn [mbind option_bind].
  rewrite decide_False by done. cbn [mbind option_bind].
  pose proof (get_reg_is_WORD _ _ _ Hwf Hb) as [Hb0 Hb1].
  pose proof (get_reg_is_WORD _ _ _ Hwf Hc) as [Hc0 Hc1].
  assert (Hq : 0 ≤ b `quot` cv ≤ b).
  { split; [apply Z.quot_pos; lia|].
    rewrite Z.quot_div_nonneg by lia.
    apply Z.div_le_upper_bound; nia. }
  destruct (store_then_addTicks c data (to_int (b `quot` cv)) Hwf Hdata)
    as (t & c' & Hrun & Hget & Hst & _).
  exists t, c'. split; [done|]. split; [|done].
  rewrite Hget, to_WORD_to_int. f_equal. apply Z.mod_small. lia.
Qed.

(** What the dispatch does with the opcode numbered 0xE: it divides, for
    16 ticks. *)
Lemma opcode_0xE_divides c data b cv :
  wf_CPU c → wf_Instruction data →
  get_reg c (regb data) = Some b → get_reg c (regc data) = Some cv →
  cv ≠ 0 → code data = 0xE →
  ∃ c', RUN c data = Some (16, c')
        ∧ get_reg c' (rega data) = Some (b `quot` cv).
Proof.
  intros Hwf Hdata Hb Hc Hne Hcode.
  destruct (DIV_nonzero c data b cv Hwf Hdata Hb Hc Hne)
    as (t & c' & Hrun & Hget & _).
  destruct (RUN_opcode c data) as (_ & _ & _ & _ & HDIV & _).
  rewrite <- HDIV in Hrun by exact Hcode.
  destruct (RUN_ticks c data t c' (wf_tick _ Hwf) Hrun) as [Ht _].
  rewrite Hcode in Ht. change (spec_ticks 0xE) with 16 in Ht. subst t.
  by exists c'.
Qed.

(** And with the opcode numbered 0xF: it multiplies, for 32 ticks. *)
Lemma opcode_0xF_multiplies c data b cv :
  wf_CPU c → wf_Instruction data →
  get_reg c (regb data) = Some b → get_reg c (regc data) = Some cv →
  code data = 0xF →
  ∃ c', RUN c data = Some (32, c')
        ∧ get_reg c' (rega data) = Some ((b * cv) mod 2 ^ 16).
Proof.
  intros Hwf Hdata Hb Hc Hcode.
  destruct (store_then_addTicks c data (to_int (b * cv)) Hwf Hdata)
    as (t & c' & Hrun & Hget & _).
  assert (HRUN : RUN c data = Some (t, c')).
  { destruct (RUN_opcode c data) as (_ & _ & _ & HMUL & _).
    rewrite HMUL by exact Hcode. unfold MUL. rewrite Hb, Hc. exact Hrun. }
  destruct (RUN_ticks c data t c' (wf_tick _ Hwf) HRUN) as [Ht _].
  rewrite Hcode in Ht. change (spec_ticks 0xF) with 32 in Ht. subst t.
  exists c'. split; [exact HRUN|]. by rewrite Hget, to_WORD_to_int.
Qed.

(** C1, as the code has it. The dispatch sends opcode 0xE to the [DIV]
    handler and opcode 0xF to the [MUL] handler.  For every register state
    with a divisor other than zero, opcode 0xE stores the quotient of
    registers B and C for 16 ticks, and opcode 0xF stores their product
    modulo 2^16 for 32 ticks; with registers 1 and 2 holding 6 and 3,
    opcode 0xE leaves 2 in register 0 and opcode 0xF leaves 18. *)
Theorem opcode_0xE_divides_0xF_multiplies :
  (∀ c data b cv,
     wf_CPU c → wf_Instruction data →
     get_reg c (regb data) = Some b → get_reg c (regc data) = Some cv →
     cv ≠ 0 →
     (code data = 0xE →
        RUN c data = DIV c data
        ∧ ∃ c', RUN c data = Some (16, c')
                ∧ get_reg c' (rega data) = Some (b `quot` cv))
     ∧ (code data = 0xF →
        RUN c data = MUL c data
        ∧ ∃ c', RUN c data = Some (32, c')
                ∧ get_reg c' (rega data) = Some ((b * cv) mod 2 ^ 16)))
  ∧ observe 0 (RUN (CPU_with_regs 1 6 2 3) (Instruction_regs 0xE 0 1 2))
    = Some (16, 0, Some 2)
  ∧ observe 0 (RUN (CPU_with_regs 1 6 2 3) (Instruction_regs 0xF 0 1 2))
    = Some (32, 0, Some 18).
Proof.
  split; [|split].
  - intros c data b cv Hwf Hdata Hb Hc Hne.
    destruct (RUN_opcode c data) as (_ & _ & _ & HMUL & HDIV & _).
    split; intros Hcode.
    + split; [by apply HDIV|]. by apply opcode_0xE_divides.
    + split; [by apply HMUL|]. by apply opcode_0xF_multiplies.
  - vm_compute. reflexivity.
  - vm_compute. reflexivity.
Qed.

(** ** A program of STP instructions *)

Lemma loop_stopped fuel c : status c = stopped → loop fuel c = Returned c.
Proof. intros Hs. destruct fuel; simpl; by rewrite Hs. Qed.

Lemma loop_running fuel c :
  status c = running →
  loop (S fuel) c
  = match step c with
    | None => Undefined
    | Some (_, c') => loop fuel c'
    end.
Proof. intros Hs. simpl. by rewrite Hs. Qed.

(** The first slot of the program store after loading a program of [STP]
    instructions holds an [STP]: the first of them, or the default
    instruction if there was none. *)
Lemma loadProgram_STP_first c prog :
  Z.of_nat (length (program c)) = pro_size →
  Forall (λ data, code data = OP.STP) prog →
  ∃ data, array_get (program (loadProgram c prog)) 0 = Some data
          ∧ code data = OP.STP.
Proof.
  intros Hsize Hprog. rewrite loadProgram_program by done.
  unfold array_get. rewrite decide_True by lia.
  change (Z.to_nat 0) with 0%nat.
  assert (HN : ∃ N, Z.to_nat pro_size = S N).
  { exists (Z.to_nat (pro_size - 1)). unfold pro_size. lia. }
  destruct HN as [N ->].
  destruct Hprog as [|data prog Hdata _].
  - exists init_pro. split; reflexivity.
  - exists data. split; [reflexivity|exact Hdata].
Qed.

(** C8. On a freshly reset machine loaded with a program that consists
    solely of [STP] instructions, [start(0)] returns after one turn of its
    loop; the clock, 0 after the reset, is then 2, the cost of [STP], and
    the run state is stopped. *)
Theorem STP_program_halts_at_once
    (c : CPU) (prog : list Instruction) (fuel : nat) :
  Z.of_nat (length (program c)) = pro_size →
  Forall (λ data, code data = OP.STP) prog →
  ∃ c', start (S fuel) (loadProgram (reset c) prog) 0 = Returned c'
        ∧ tick (loadProgram (reset c) prog) = 0
        ∧ tick c' = tick (loadProgram (reset c) prog) + 2
        ∧ status c' = stopped.
Proof.
  intros Hsize Hprog.
  destruct (loadProgram_STP_first (reset c) prog) as (data & Hfetch & Hcode);
    [unfold reset; cbn [program]; by rewrite length_fmap|exact Hprog|].
  assert (Htick : tick (loadProgram (reset c) prog) = 0) by reflexivity.
  revert Hfetch Htick. generalize (loadProgram (reset c) prog). intros m Hfetch Htick.
  unfold start. rewrite loop_running by reflexivity.
  unfold step. cbn [program PC set_status set_PC]. rewrite Hfetch.
  cbn [mbind option_bind].
  destruct (RUN_opcode (set_PC (set_status (set_PC m 0) running) (to_WORD (0 + 1)))
              data) as (HSTP & _).
  rewrite HSTP by exact Hcode.
  unfold STP, addTicks. rewrite Hcode.
  change (array_get OP.tick_count OP.STP) with (Some 2).
  cbn [mbind option_bind].
  rewrite loop_stopped by reflexivity.
  eexists. split; [reflexivity|].
  cbn [tick status set_tick set_status set_PC]. rewrite Htick.
  repeat split.
Qed.

(** ** The theorems at work on the example machines *)

Lemma is_Some_eval {A} (o : option A) :
  (if o is Some _ then true else false) = true → is_Some o.
Proof. destruct o; [by eexists|discriminate]. Qed.

Lemma option_pair_eta {A B} (o : option (A * B)) (a : A) (b : B) :
  is_Some o → o = Some (from_option fst a o, from_option snd b o).
Proof. intros [[x y] ->]. reflexivity. Qed.

(** [program_store_unchanged] on [STR]: storing register 1 at the address
    in register 2 leaves the program store as it was. *)
Lemma program_store_unchanged_by_STR :
  program
    (from_option snd CPU_new
       (RUN (CPU_with_regs 1 0xBEEF 2 0x0010) (Instruction_regs OP.STR 1 2 0)))
  = program (CPU_with_regs 1 0xBEEF 2 0x0010).
Proof.
  refine (proj1 (program_store_unchanged
    (CPU_with_regs 1 0xBEEF 2 0x0010) (Instruction_regs OP.STR 1 2 0)
    (from_option fst 0
       (RUN (CPU_with_regs 1 0xBEEF 2 0x0010) (Instruction_regs OP.STR 1 2 0)))
    (from_option snd CPU_new
       (RUN (CPU_with_regs 1 0xBEEF 2 0x0010) (Instruction_regs OP.STR 1 2 0)))
    _)).
  apply option_pair_eta, is_Some_eval. vm_compute. reflexivity.
Defined.

(** [clock_is_sum_of_opcode_costs] on two instructions: the [JAL] at
    address 10 of [JAL_machine], then the [STP] it jumps to. *)
Lemma clock_is_sum_of_opcode_costs_JAL_STP :
  length (from_option fst [] (exec 2 JAL_machine)) = 2%nat
  ∧ Forall (λ e, e.2 = spec_ticks (code e.1))
      (from_option fst [] (exec 2 JAL_machine))
  ∧ tick (from_option snd CPU_new (exec 2 JAL_machine))
    = to_COUNT (tick JAL_machine
                + total_ticks (from_option fst [] (exec 2 JAL_machine)))
  ∧ (tick JAL_machine + total_ticks (from_option fst [] (exec 2 JAL_machine))
       < 2 ^ 64 →
     tick (from_option snd CPU_new (exec 2 JAL_machine))
     = tick JAL_machine
       + total_ticks (from_option fst [] (exec 2 JAL_machine))).
Proof.
  apply (clock_is_sum_of_opcode_costs 2 JAL_machine).
  - vm_compute. split; [discriminate|reflexivity].
  - apply option_pair_eta, is_Some_eval. vm_compute. reflexivity.
Defined.

(** The two instructions cost 4 and 2 ticks, and the clock reads 6. *)
Lemma clock_after_JAL_STP :
  (λ r, (r.1.*2, total_ticks r.1, tick r.2, status r.2)) <$> exec 2 JAL_machine
  = Some ([4; 2], 6, 6, stopped).
Proof. vm_compute. reflexivity. Qed.

(** [STP_program_halts_at_once] on a program of two [STP] instructions. *)
Lemma STP_program_halts_at_once_two :
  ∃ c', start 1
          (loadProgram (reset CPU_new)
             [Instruction_op OP.STP; Instruction_regs OP.STP 3 4 5]) 0
        = Returned c'
        ∧ tick (loadProgram (reset CPU_new)
                  [Instruction_op OP.STP; Instruction_regs OP.STP 3 4 5]) = 0
        ∧ tick c'
          = tick (loadProgram (reset CPU_new)
                    [Instruction_op OP.STP; Instruction_regs OP.STP 3 4 5]) + 2
        ∧ status c' = stopped.
Proof.
  apply (STP_program_halts_at_once CPU_new
           [Instruction_op OP.STP; Instruction_regs OP.STP 3 4 5] 0).
  - exact (wf_program_size _ wf_CPU_new).
  - repeat constructor.
Defined.
